(** * NXTUTORS lead qualification agent: a shallow embedding of [agent.py]

    The development follows the source file top to bottom:
    - Python strings are lists of Unicode code points; what the interpreter
      takes from the Unicode character database for code points outside ASCII
      is an interface ([Unicode]), so every result holds whatever that
      database says;
    - the two regular expressions of the source run on a small backtracking
      matcher with the priorities of Python's [re] (greedy repetition, ordered
      alternation, leftmost match);
    - [int], [str], [min], [max], [round] and true division are modelled with
      their failure cases as [option];
    - the four extractors and [qualify_lead] are transcribed statement by
      statement, on a lead whose values have the types the source announces:
      strings, a list of strings for the subjects, or nothing. *)

From Stdlib Require Import String Ascii.
From Stdlib Require Import ZArith NArith List Bool Lia Permutation.
From Stdlib Require Import Floats.PrimFloat Floats.FloatOps Floats.SpecFloat.
From Stdlib Require Import Numbers.Cyclic.Int63.Uint63.
From Stdlib Require Import Init.Decimal Numbers.DecimalPos.
Import ListNotations.

Set Implicit Arguments.

(* ================================================================= *)
(** ** Python strings *)

Module PyStr.

Definition codepoint := N.

(** A [str] value: the sequence of its code points. *)
Definition pystr := list codepoint.

(** An ASCII literal of the source, as a [str]. *)
Definition py (s : string) : pystr := map N_of_ascii (list_ascii_of_string s).
Arguments py s%_string.

Definition is_ascii (c : codepoint) : bool := (c <? 128)%N.

(** U+20B9 INDIAN RUPEE SIGN, U+2013 EN DASH and U+2011 NON-BREAKING HYPHEN:
    the three characters outside ASCII that the literals of the source use. *)
Definition RUPEE : codepoint := 8377%N.
Definition EN_DASH : codepoint := 8211%N.
Definition NB_HYPHEN : codepoint := 8209%N.

Definition ascii_decimal (c : codepoint) : option Z :=
  if ((48 <=? c) && (c <=? 57))%N then Some (Z.of_N c - 48)%Z else None.

(** [Py_UNICODE_ISSPACE] below 128: TAB, LF, VT, FF, CR, the four
    separators FS, GS, RS, US, and SPACE. *)
Definition ascii_space (c : codepoint) : bool :=
  (((9 <=? c) && (c <=? 13)) || ((28 <=? c) && (c <=? 32)))%N.

Definition ascii_lower (c : codepoint) : codepoint :=
  if ((65 <=? c) && (c <=? 90))%N then (c + 32)%N else c.

(** What the interpreter reads in the Unicode character database for code
    points from 128 on.  Below 128 the model computes. *)
Class Unicode := {
  (** value of a decimal digit (category Nd): decides [\d] and feeds [int] *)
  decimal_ext : codepoint -> option Z;
  (** [\s] *)
  space_ext : codepoint -> bool;
  (** [str.lower] of one character, given what precedes it (nearest first)
      and what follows it; the result may hold several code points, and the
      context matters for the final sigma *)
  lower_ext : pystr -> codepoint -> pystr -> pystr;
  (** [re.IGNORECASE]: does the subject character (second argument) match the
      pattern literal (first argument) *)
  fold_ext : codepoint -> codepoint -> bool;
  decimal_ext_digit : forall c v, decimal_ext c = Some v -> (0 <= v <= 9)%Z;
  (** the rupee sign is a currency symbol and the en dash a punctuation *)
  decimal_ext_rupee : decimal_ext RUPEE = None;
  decimal_ext_en_dash : decimal_ext EN_DASH = None
}.

Section Chars.
Context {U : Unicode}.

Definition decimal (c : codepoint) : option Z :=
  if is_ascii c then ascii_decimal c else decimal_ext c.

Definition is_digit (c : codepoint) : bool :=
  match decimal c with Some _ => true | None => false end.

Definition is_space (c : codepoint) : bool :=
  if is_ascii c then ascii_space c else space_ext c.

(** Does the subject character [c] match the pattern literal [lit]; under
    [re.IGNORECASE] both are lowered first, and a pair with a character
    outside ASCII is settled by the database. *)
Definition lit_eq (ignorecase : bool) (lit c : codepoint) : bool :=
  if ignorecase then
    if is_ascii c && is_ascii lit
    then (ascii_lower c =? ascii_lower lit)%N
    else fold_ext lit c
  else (c =? lit)%N.

(** [s.lower()] *)
Fixpoint lower_from (before : pystr) (s : pystr) : pystr :=
  match s with
  | [] => []
  | c :: after =>
      (if is_ascii c then [ascii_lower c] else lower_ext before c after)
        ++ lower_from (c :: before) after
  end.

Definition lower (s : pystr) : pystr := lower_from [] s.

End Chars.

Definition str_eqb (a b : pystr) : bool :=
  if list_eq_dec N.eq_dec a b then true else false.

Fixpoint startswith (s prefix : pystr) {struct prefix} : bool :=
  match prefix, s with
  | [], _ => true
  | p :: prefix', c :: s' => (c =? p)%N && startswith s' prefix'
  | _ :: _, [] => false
  end.

(** [needle in hay] *)
Fixpoint contains (hay needle : pystr) : bool :=
  startswith hay needle ||
  match hay with
  | [] => false
  | _ :: hay' => contains hay' needle
  end.

(** [s.replace(old, new)] for an [old] of one character. *)
Definition replace (old : codepoint) (new : pystr) (s : pystr) : pystr :=
  flat_map (fun c => if (c =? old)%N then new else [c]) s.

(** [sep.join(parts)] *)
Fixpoint join (sep : pystr) (parts : list pystr) : pystr :=
  match parts with
  | [] => []
  | [p] => p
  | p :: rest => p ++ sep ++ join sep rest
  end.

(** Truth value of an [Optional[str]], and of an optional list. *)
Definition truthy_opt {A} (o : option (list A)) : bool :=
  match o with Some (_ :: _) => true | _ => false end.

(** [a or b] on optional values: [a] when it is true, else [b]. *)
Definition py_or {A} (a b : option (list A)) : option (list A) :=
  if truthy_opt a then a else b.

(** [a or default] where the default is a value. *)
Definition py_or_else {A} (a : option (list A)) (default : list A) : list A :=
  match a with Some (x :: l) => x :: l | _ => default end.

End PyStr.
Export PyStr.

(* ================================================================= *)
(** ** Regular expressions: the fragment of [re] the source uses *)

Module Re.

Inductive regex : Type :=
| Eps                       (* the empty pattern *)
| Digit                     (* \d *)
| Space                     (* \s *)
| Lit (c : codepoint)       (* a literal character *)
| Cat (r1 r2 : regex)       (* r1 r2 *)
| Alt (r1 r2 : regex)       (* r1|r2, the left branch first *)
| Star (r : regex)          (* r*, greedy *)
| Group (r : regex).        (* (r), the capturing group 1 *)

(** [r+] and [r{3}] *)
Definition Plus (r : regex) : regex := Cat r (Star r).
Definition Times3 (r : regex) : regex := Cat r (Cat r r).

(** A literal word. *)
Fixpoint Word (w : pystr) : regex :=
  match w with
  | [] => Eps
  | c :: w' => Cat (Lit c) (Word w')
  end.

(** A match object: the text matched, group 1 when it took part, and the
    text after the match. *)
Record match_obj : Type := {
  group0 : pystr;
  group1 : option pystr;
  rest : pystr
}.

Section Matcher.
Context {U : Unicode}.
Variable ignorecase : bool.

Section Run.
Variable A : Type.

(** What remains to be matched after a sub-pattern: it receives the text
    left and the group captured so far, and fails with [None], which sends
    the matcher back to its last choice point. *)
Definition cont : Type := pystr -> option pystr -> option A.

Definition one_char (p : codepoint -> bool) (s : pystr) (g : option pystr)
    (k : cont) : option A :=
  match s with
  | c :: s' => if p c then k s' g else None
  | [] => None
  end.

(** The greedy loop of [r*]: one more round of [body], which must consume
    something (the bodies of the source's patterns always do), before the
    continuation is tried.  At most [length s] rounds fit in [s], which is
    the bound [n] starts from. *)
Fixpoint star_loop (body : pystr -> option pystr -> cont -> option A)
    (n : nat) (s : pystr) (g : option pystr) (k : cont) : option A :=
  match n with
  | O => k s g
  | S n' =>
      match body s g (fun s' g' =>
                        if (length s' <? length s)%nat
                        then star_loop body n' s' g' k
                        else None) with
      | Some a => Some a
      | None => k s g
      end
  end.

Fixpoint run (r : regex) (s : pystr) (g : option pystr) (k : cont)
    {struct r} : option A :=
  match r with
  | Eps => k s g
  | Digit => one_char is_digit s g k
  | Space => one_char is_space s g k
  | Lit l => one_char (lit_eq ignorecase l) s g k
  | Cat r1 r2 => run r1 s g (fun s' g' => run r2 s' g' k)
  | Alt r1 r2 =>
      match run r1 s g k with
      | Some a => Some a
      | None => run r2 s g k
      end
  | Star r1 => star_loop (run r1) (length s) s g k
  | Group r1 =>
      run r1 s g (fun s' _ => k s' (Some (firstn (length s - length s') s)))
  end.

End Run.

(** [re.match]: a match that starts at the head of [s]. *)
Definition match_at (r : regex) (s : pystr) : option match_obj :=
  run r s None
    (fun s' g => Some {| group0 := firstn (length s - length s') s;
                         group1 := g;
                         rest := s' |}).

(** [re.search]: the match at the leftmost position that has one. *)
Fixpoint search (r : regex) (s : pystr) : option match_obj :=
  match match_at r s with
  | Some m => Some m
  | None =>
      match s with
      | [] => None
      | _ :: s' => search r s'
      end
  end.

(** [re.findall] for a pattern without capturing group: the texts of the
    successive matches, each search resuming where the last match ended (one
    character further after an empty match).  [n] bounds the number of
    resumptions; [length s + 1] is always enough. *)
Fixpoint findall_from (n : nat) (r : regex) (s : pystr) : list pystr :=
  match n with
  | O => []
  | S n' =>
      match match_at r s with
      | Some m =>
          group0 m ::
            (if (length (rest m) <? length s)%nat
             then findall_from n' r (rest m)
             else match s with
                  | [] => []
                  | _ :: s' => findall_from n' r s'
                  end)
      | None =>
          match s with
          | [] => []
          | _ :: s' => findall_from n' r s'
          end
      end
  end.

Definition findall (r : regex) (s : pystr) : list pystr :=
  findall_from (S (length s)) r s.

End Matcher.

End Re.
Export Re.

(* ================================================================= *)
(** ** Builtins of the interpreter *)

Module Builtins.

(** A computation that may raise: [None] is the exception. *)
Definition bind {A B} (m : option A) (f : A -> option B) : option B :=
  match m with
  | Some a => f a
  | None => None
  end.

Local Open Scope Z_scope.

Declare Scope py_scope.
Delimit Scope py_scope with py.
Notation "x <- m ;; k" := (bind m (fun x => k))
  (at level 61, m at next level, right associativity) : py_scope.
Notation "' p <- m ;; k" := (bind m (fun x => match x with p => k end))
  (at level 61, p pattern, m at next level, right associativity) : py_scope.

Section Int.
Context {U : Unicode}.

Fixpoint int_digits (acc : Z) (s : pystr) : option Z :=
  match s with
  | [] => Some acc
  | c :: s' =>
      match decimal c with
      | Some v => int_digits (10 * acc + v) s'
      | None => None
      end
  end.

(** [int(s)] on a text of decimal digits, the only texts the program passes
    to it.  The empty text and a text with another character are [None]:
    for the first and for most of the second Python raises [ValueError]
    (signs, blanks around and underscores inside, which Python accepts, are
    outside this fragment).  The interpreter's limit on the number of digits
    of a conversion is not part of the model. *)
Definition py_int (s : pystr) : option Z :=
  match s with
  | [] => None
  | _ :: _ => int_digits 0 s
  end.

End Int.

Fixpoint uint_digits (d : Decimal.uint) : pystr :=
  match d with
  | Nil => []
  | D0 d' => 48%N :: uint_digits d'
  | D1 d' => 49%N :: uint_digits d'
  | D2 d' => 50%N :: uint_digits d'
  | D3 d' => 51%N :: uint_digits d'
  | D4 d' => 52%N :: uint_digits d'
  | D5 d' => 53%N :: uint_digits d'
  | D6 d' => 54%N :: uint_digits d'
  | D7 d' => 55%N :: uint_digits d'
  | D8 d' => 56%N :: uint_digits d'
  | D9 d' => 57%N :: uint_digits d'
  end.

(** [str(z)], which is also what an f-string writes for [{z}]. *)
Definition py_str (z : Z) : pystr :=
  match Z.to_int z with
  | Decimal.Pos d => uint_digits d
  | Decimal.Neg d => 45%N :: uint_digits d
  end.

(** [min(l)] and [max(l)]; [ValueError] on the empty list. *)
Definition py_min (l : list Z) : option Z :=
  match l with
  | [] => None
  | x :: l' => Some (fold_left Z.min l' x)
  end.

Definition py_max (l : list Z) : option Z :=
  match l with
  | [] => None
  | x :: l' => Some (fold_left Z.max l' x)
  end.

(** [[f(x) for x in l]] for an [f] that may raise. *)
Fixpoint map_opt {A B} (f : A -> option B) (l : list A) : option (list B) :=
  match l with
  | [] => Some []
  | x :: l' =>
      match f x with
      | Some y =>
          match map_opt f l' with
          | Some ys => Some (y :: ys)
          | None => None
          end
      | None => None
      end
  end.

(** *** Floating point: binary64, on the kernel's primitive floats *)

(** The float of an integer below [2^53] in absolute value, which is exact.
    Larger integers are outside the model ([None]). *)
Definition float_of_int (z : Z) : option float :=
  if (Z.abs z <? 2 ^ 53)%Z then
    Some (if (z <? 0)%Z
          then PrimFloat.opp (PrimFloat.of_uint63 (Uint63.of_Z (- z)))
          else PrimFloat.of_uint63 (Uint63.of_Z z))
  else None.

(** [a / b] on integers: the correctly rounded quotient, which for two exact
    floats is their IEEE quotient; [ZeroDivisionError] when [b] is 0. *)
Definition truediv (a b : Z) : option float :=
  if (b =? 0)%Z then None
  else
    match float_of_int a, float_of_int b with
    | Some x, Some y => Some (PrimFloat.div x y)
    | _, _ => None
    end.

(** [x * n] for a float [x] and an integer [n]. *)
Definition mul_int (x : float) (n : Z) : option float :=
  match float_of_int n with
  | Some y => Some (PrimFloat.mul x y)
  | None => None
  end.

(** The integer nearest to [m * 2^e], ties to the even one. *)
Definition round_half_even (m : positive) (e : Z) : Z :=
  if (0 <=? e)%Z then Z.pos m * 2 ^ e
  else
    let d := (2 ^ (- e))%Z in
    let q := (Z.pos m / d)%Z in
    let r := (Z.pos m mod d)%Z in
    if (2 * r <? d)%Z then q
    else if (d <? 2 * r)%Z then (q + 1)%Z
    else if Z.even q then q else (q + 1)%Z.

(** [round(x)] with one argument: an integer; it raises on an infinity
    ([OverflowError]) and on a NaN ([ValueError]). *)
Definition py_round (x : float) : option Z :=
  match Prim2SF x with
  | S754_zero _ => Some 0%Z
  | S754_finite sign m e =>
      Some (if sign then (- round_half_even m e)%Z else round_half_even m e)
  | S754_infinity _ => None
  | S754_nan => None
  end.

End Builtins.
Export Builtins.

(* ================================================================= *)
(** ** The agent *)

Local Open Scope Z_scope.
Local Open Scope py_scope.

(** The string literals of the source that stand for enumerated values.
    The two urgency levels with a hyphen are written in the source with
    U+2011 NON-BREAKING HYPHEN, at every occurrence. *)
Definition Unknown : pystr := py "Unknown".
Definition Low : pystr := py "Low".
Definition Medium : pystr := py "Medium".
Definition High : pystr := py "High".
Definition Invalid : pystr := py "Invalid".
Definition Immediate : pystr := py "Immediate".
Definition Short_Term : pystr := py "Short" ++ [NB_HYPHEN] ++ py "Term".
Definition Long_Term : pystr := py "Long" ++ [NB_HYPHEN] ++ py "Term".
Definition High_Intent : pystr := py "High Intent".
Definition Medium_Intent : pystr := py "Medium Intent".
Definition Low_Intent : pystr := py "Low Intent".
Definition Tutor_Matching_Agent : pystr := py "Tutor Matching Agent".
Definition Sales_Closure_Agent : pystr := py "Sales Closure Agent".
Definition Academic_Counselor_Agent : pystr := py "Academic Counselor Agent".
Definition WhatsApp_Nurture_Agent : pystr := py "WhatsApp Nurture Agent".
Definition Archive_Ignore_Agent : pystr := py "Archive / Ignore Agent".

(** The lead: a [dict] read only through [get] at eight keys.  A key that is
    absent and a key bound to [None] both read as [None]. *)
Module Lead.
Record t : Type := {
  lead_id : option pystr;
  mode_preference : option pystr;
  mode : option pystr;
  subjects : option (list pystr);
  budget : option pystr;
  budget_range : option pystr;
  urgency : option pystr;
  location : option pystr
}.
End Lead.

(** The [dict] that [qualify_lead] returns, key by key. *)
Module Report.
Record t : Type := {
  lead_id : pystr;
  lead_quality_score : Z;
  lead_quality_label : pystr;
  intent_level : pystr;
  urgency_level : pystr;
  budget_range_inferred : pystr;
  preferred_mode : pystr;
  subject_complexity : pystr;
  location_feasibility_score : Z;
  recommended_next_agent : pystr;
  confidence_in_recommendation : Z;
  reasoning_summary : pystr;
  memory_tags : list pystr;
  human_attention_required : bool
}.
End Report.

(** The dataclass: its three fields. *)
Record LeadQualificationAgent : Type := {
  high_intent_threshold : Z;
  medium_intent_threshold : Z;
  low_intent_threshold : Z
}.

(** [LeadQualificationAgent()] *)
Definition default_agent : LeadQualificationAgent :=
  {| high_intent_threshold := 80;
     medium_intent_threshold := 60;
     low_intent_threshold := 40 |}.

(** [\d+(?:,\d{3})*] *)
Definition budget_re : regex :=
  Cat (Plus Digit) (Star (Cat (Lit 44%N) (Times3 Digit))).

(** [(\d+)\s*(?:day|days)] and [(\d+)\s*(?:hour|hours)] *)
Definition days_re : regex :=
  Cat (Group (Plus Digit))
      (Cat (Star Space) (Alt (Word (py "day")) (Word (py "days")))).

Definition hours_re : regex :=
  Cat (Group (Plus Digit))
      (Cat (Star Space) (Alt (Word (py "hour")) (Word (py "hours")))).

(** [m.group(1)]; a group that took no part reads [None], on which [int]
    raises. *)
Definition int_group1 {U : Unicode} (m : match_obj) : option Z :=
  match group1 m with
  | Some g => py_int g
  | None => None
  end.

Section Extractors.
Context {U : Unicode}.

(** [_parse_budget]: the pair [(range_str, category)]. *)
Definition _parse_budget (budget_str : option pystr) : option (pystr * pystr) :=
  match budget_str with
  | None | Some [] => Some (Unknown, Unknown)
  | Some budget_str =>
      let numbers := findall false budget_re budget_str in
      match numbers with
      | _ :: _ =>
          amounts <- map_opt (fun num => py_int (replace 44%N [] num)) numbers ;;
          low <- py_min amounts ;;
          high <- py_max amounts ;;
          let category :=
            if high <=? 3000 then Low
            else if high <=? 8000 then Medium
            else High in
          let range_str :=
            if negb (low =? high)
            then [RUPEE] ++ py_str low ++ [EN_DASH] ++ [RUPEE] ++ py_str high
            else [RUPEE] ++ py_str low in
          Some (range_str, category)
      | [] => Some (Unknown, Unknown)
      end
  end.

(** [_determine_urgency] *)
Definition _determine_urgency (urgency_str : option pystr) : option pystr :=
  match urgency_str with
  | None | Some [] => Some Long_Term
  | Some urgency_str =>
      let days_match := search true days_re urgency_str in
      let hours_match := search true hours_re urgency_str in
      match hours_match with
      | Some m =>
          hours <- int_group1 m ;;
          Some (if hours <=? 48 then Immediate else Short_Term)
      | None =>
          match days_match with
          | Some m =>
              days <- int_group1 m ;;
              if days <=? 2 then Some Immediate
              else if days <=? 7 then Some Short_Term
              else Some Long_Term
          | None => Some Long_Term
          end
      end
  end.

(** The two keyword sets.  The source iterates over Python sets, whose
    order is unspecified; the lists fix an order, on which the result does
    not depend ([keyword_hit_perm]). *)
Definition high_complexity_keywords : list pystr :=
  [py "JEE"; py "NEET"; py "IIT"; py "IB"; py "IGCSE"].

Definition medium_complexity_keywords : list pystr :=
  [py "Math"; py "Physics"; py "Chemistry"; py "Biology"].

(** The nested loops of [_assess_subject_complexity]: is there a subject,
    and a keyword, with [keyword.lower() in sub.lower()]. *)
Definition keyword_hit (keywords : list pystr) (subjects : list pystr) : bool :=
  existsb (fun sub =>
             existsb (fun keyword => contains (lower sub) (lower keyword))
                     keywords)
          subjects.

(** [_assess_subject_complexity] *)
Definition _assess_subject_complexity (subjects : option (list pystr)) : pystr :=
  match subjects with
  | None | Some [] => Unknown
  | Some subjects =>
      if keyword_hit high_complexity_keywords subjects then High
      else if keyword_hit medium_complexity_keywords subjects then Medium
      else Low
  end.

(** [_compute_location_feasibility] *)
Definition _compute_location_feasibility (location mode : option pystr) : Z :=
  match location with
  | None | Some [] => 50
  | Some location =>
      if truthy_opt mode &&
         match mode with
         | Some mode => str_eqb (lower mode) (py "online")
         | None => false
         end
      then 100
      else
        let loc_lower := lower location in
        if existsb (fun term => contains loc_lower term)
                   [py "sector"; py "society"; py "block"] then 80
        else if existsb (fun term => contains loc_lower term)
                        [py "city"; py "town"; py "district"] then 60
        else 50
  end.

End Extractors.

(** *** [qualify_lead] *)

(** The running pair [(quality_score, reasoning_lines)] and one
    [quality_score += delta; reasoning_lines.append(sentence)]. *)
Definition scoring : Type := (Z * list pystr)%type.

Definition bump (delta : Z) (sentence : pystr) (st : scoring) : scoring :=
  (fst st + delta, snd st ++ [sentence]).

(** Adjust score based on budget category. *)
Definition budget_adjust (budget_category : pystr) (st : scoring) : scoring :=
  if str_eqb budget_category Low then
    bump 5 (py "Low budget implies affordability; small boost.") st
  else if str_eqb budget_category Medium then
    bump 10 (py "Medium budget suggests moderate affordability.") st
  else if str_eqb budget_category High then
    bump 20 (py "High budget indicates strong ability to pay.") st
  else st.

(** Urgency bonus. *)
Definition urgency_adjust (urgency_level : pystr) (st : scoring) : scoring :=
  if str_eqb urgency_level Immediate then
    bump 20 (py "Immediate urgency indicates high intent.") st
  else if str_eqb urgency_level Short_Term then
    bump 10 (py "Short" ++ [NB_HYPHEN] ++
             py "term urgency indicates medium intent.") st
  else st.

(** Subject complexity influences quality. *)
Definition complexity_adjust (subject_complexity : pystr) (st : scoring) : scoring :=
  if str_eqb subject_complexity High then
    bump 15 (py "High complexity subjects require specialized tutors.") st
  else if str_eqb subject_complexity Medium then
    bump 5 (py "Medium complexity subjects are common but significant.") st
  else st.

Definition precise_location_sentence : pystr :=
  py "Precise location makes home tutoring feasible.".

Definition generic_location_sentence : pystr :=
  py "Generic location lowers match confidence.".

(** Feasibility adjustments. *)
Definition feasibility_adjust (location_feasibility_score : Z) (st : scoring)
    : scoring :=
  if 80 <=? location_feasibility_score then
    bump 10 precise_location_sentence st
  else if location_feasibility_score <=? 60 then
    bump (-5) generic_location_sentence st
  else st.

(** Bound score between 0 and 100. *)
Definition clamp (quality_score : Z) : Z := Z.max 0 (Z.min 100 quality_score).

(** Determine intent level label: the pair
    [(lead_quality_label, intent_level)]. *)
Definition label_of (self : LeadQualificationAgent) (quality_score : Z)
    : pystr * pystr :=
  if high_intent_threshold self <=? quality_score then (High, High_Intent)
  else if medium_intent_threshold self <=? quality_score
       then (Medium, Medium_Intent)
  else if low_intent_threshold self <=? quality_score then (Low, Low_Intent)
  else (Invalid, Low_Intent).

(** Decide recommended next agent based on score and urgency. *)
Definition route (lead_quality_label urgency_level : pystr) : pystr :=
  if str_eqb lead_quality_label High then
    if str_eqb urgency_level Immediate then Tutor_Matching_Agent
    else Sales_Closure_Agent
  else if str_eqb lead_quality_label Medium then Academic_Counselor_Agent
  else if str_eqb lead_quality_label Low then WhatsApp_Nurture_Agent
  else Archive_Ignore_Agent.

(** [round(abs(quality_score - 50) / 50 * 100)] *)
Definition confidence_of (quality_score : Z) : option Z :=
  ratio <- truediv (Z.abs (quality_score - 50)) 50 ;;
  percent <- mul_int ratio 100 ;;
  py_round percent.

Section Qualify.
Context {U : Unicode}.

Definition qualify_lead (self : LeadQualificationAgent) (lead : Lead.t)
    : option Report.t :=
  let lead_id := py_or_else (Lead.lead_id lead) [] in
  let mode :=
    py_or_else (py_or (Lead.mode_preference lead) (Lead.mode lead)) Unknown in
  let subjects := py_or_else (Lead.subjects lead) [] in
  let budget := py_or (Lead.budget lead) (Lead.budget_range lead) in
  let urgency := Lead.urgency lead in
  '(budget_range, budget_category) <- _parse_budget budget ;;
  urgency_level <- _determine_urgency urgency ;;
  let subject_complexity := _assess_subject_complexity (Some subjects) in
  let location_feasibility_score :=
    _compute_location_feasibility (Lead.location lead) (Some mode) in
  let st : scoring := (50, []) in
  let st := budget_adjust budget_category st in
  let st := urgency_adjust urgency_level st in
  let st := complexity_adjust subject_complexity st in
  let st := feasibility_adjust location_feasibility_score st in
  let reasoning_lines := snd st in
  let quality_score := clamp (fst st) in
  let '(lead_quality_label, intent_level) := label_of self quality_score in
  let recommended_agent := route lead_quality_label urgency_level in
  confidence_in_recommendation <- confidence_of quality_score ;;
  let reasoning_summary :=
    match join (py "; ") reasoning_lines with
    | [] => py "Lead evaluated with default heuristics."
    | c :: l => c :: l
    end in
  let memory_tags :=
    [ py "budget:" ++ lower budget_category;
      py "urgency:" ++ lower urgency_level;
      py "complexity:" ++ lower subject_complexity;
      py "intent:" ++ replace 32%N (py "-") (lower intent_level) ] in
  Some {| Report.lead_id := lead_id;
          Report.lead_quality_score := quality_score;
          Report.lead_quality_label := lead_quality_label;
          Report.intent_level := intent_level;
          Report.urgency_level := urgency_level;
          Report.budget_range_inferred := budget_range;
          Report.preferred_mode := mode;
          Report.subject_complexity := subject_complexity;
          Report.location_feasibility_score := location_feasibility_score;
          Report.recommended_next_agent := recommended_agent;
          Report.confidence_in_recommendation := confidence_in_recommendation;
          Report.reasoning_summary := reasoning_summary;
          Report.memory_tags := memory_tags;
          Report.human_attention_required :=
            if existsb (str_eqb lead_quality_label) [High; Medium]
            then false else true |}.

End Qualify.

(** A database in which no character outside ASCII is a digit, a blank or
    a cased letter: a valid instance of the interface, on which the model
    runs whole. *)
Definition ascii_only : Unicode.
Proof.
  refine {| decimal_ext := fun _ => None;
            space_ext := fun _ => false;
            lower_ext := fun _ c _ => [c];
            fold_ext := fun lit c => (c =? lit)%N |};
    [ discriminate | reflexivity | reflexivity ].
Defined.

(** The lead of the end-to-end scenario. *)
Definition lead_L1 : Lead.t :=
  {| Lead.lead_id := Some (py "L1");
     Lead.mode_preference := None;
     Lead.mode := Some (py "offline");
     Lead.subjects := Some [py "JEE"];
     Lead.budget := Some ([RUPEE] ++ py "10000");
     Lead.budget_range := None;
     Lead.urgency := Some (py "within 2 days");
     Lead.location := Some (py "Sector 5") |}.

(** A lead that says nothing but [mode = "online"]. *)
Definition lead_online : Lead.t :=
  {| Lead.lead_id := None;
     Lead.mode_preference := None;
     Lead.mode := Some (py "online");
     Lead.subjects := None;
     Lead.budget := None;
     Lead.budget_range := None;
     Lead.urgency := None;
     Lead.location := None |}.

(* ================================================================= *)
(** ** What the statements are written with *)

(** [s'] is what is left of [s] after some prefix. *)
Definition suffix (s' s : pystr) : Prop := exists p, s = p ++ s'.

(** [needle] occurs in [hay]. *)
Definition infix (needle hay : pystr) : Prop :=
  exists pre post, hay = pre ++ needle ++ post.

Section Language.
Context {U : Unicode}.
Variable ignorecase : bool.

(** The words of a pattern, with the group they leave: [Matches r w g g']
    when [r] matches exactly [w], and group 1, which held [g] before, holds
    [g'] after.  A round of a repetition consumes at least one character, as
    in the matcher. *)
Inductive Matches : regex -> pystr -> option pystr -> option pystr -> Prop :=
| M_eps g : Matches Eps [] g g
| M_digit c g : is_digit c = true -> Matches Digit [c] g g
| M_space c g : is_space c = true -> Matches Space [c] g g
| M_lit l c g : lit_eq ignorecase l c = true -> Matches (Lit l) [c] g g
| M_cat r1 r2 w1 w2 g g1 g2 :
    Matches r1 w1 g g1 -> Matches r2 w2 g1 g2 ->
    Matches (Cat r1 r2) (w1 ++ w2) g g2
| M_alt_l r1 r2 w g g' : Matches r1 w g g' -> Matches (Alt r1 r2) w g g'
| M_alt_r r1 r2 w g g' : Matches r2 w g g' -> Matches (Alt r1 r2) w g g'
| M_star_stop r g : Matches (Star r) [] g g
| M_star_round r w1 w2 g g1 g2 :
    w1 <> [] -> Matches r w1 g g1 -> Matches (Star r) w2 g1 g2 ->
    Matches (Star r) (w1 ++ w2) g g2
| M_group r w g g' : Matches r w g g' -> Matches (Group r) w g (Some w).

(** A character that some test of the pattern lets through. *)
Fixpoint accepts (r : regex) (c : codepoint) : Prop :=
  match r with
  | Eps => False
  | Digit => is_digit c = true
  | Space => is_space c = true
  | Lit l => lit_eq ignorecase l c = true
  | Cat r1 r2 | Alt r1 r2 => accepts r1 c \/ accepts r2 c
  | Star r1 | Group r1 => accepts r1 c
  end.

(** The text has a place where the pattern matches. *)
Definition occurs (r : regex) (s : pystr) : Prop :=
  exists pre w post g, s = pre ++ w ++ post /\ Matches r w None g.

End Language.

(** A pattern without capturing group. *)
Fixpoint groupless (r : regex) : bool :=
  match r with
  | Eps | Digit | Space | Lit _ => true
  | Cat r1 r2 | Alt r1 r2 => groupless r1 && groupless r2
  | Star r1 => groupless r1
  | Group _ => false
  end.

(** Two databases classify [c] alike in every test that [r] makes. *)
Fixpoint same_class (U U' : Unicode) (ignorecase : bool) (r : regex)
    (c : codepoint) : Prop :=
  match r with
  | Eps => True
  | Digit => @is_digit U c = @is_digit U' c
  | Space => @is_space U c = @is_space U' c
  | Lit l => @lit_eq U ignorecase l c = @lit_eq U' ignorecase l c
  | Cat r1 r2 | Alt r1 r2 =>
      same_class U U' ignorecase r1 c /\ same_class U U' ignorecase r2 c
  | Star r1 | Group r1 => same_class U U' ignorecase r1 c
  end.

(** A text of one or more decimal digits. *)
Definition digits {U : Unicode} (s : pystr) : Prop :=
  s <> [] /\ Forall (fun c => is_digit c = true) s.

(** [lo] is the least and [hi] the greatest element of [l]. *)
Definition least (lo : Z) (l : list Z) : Prop :=
  In lo l /\ Forall (fun a => lo <= a) l.

Definition greatest (hi : Z) (l : list Z) : Prop :=
  In hi l /\ Forall (fun a => a <= hi) l.


(** [u] is the word [unit] up to case, as [re.IGNORECASE] compares. *)
Definition same_word_ci {U : Unicode} (unit u : pystr) : Prop :=
  Forall2 (fun l c => lit_eq true l c = true) unit u.

(** The text contains a number, blanks if any, and the unit in either of
    its two spellings: ["<N> hour(s)"]. *)
Definition has_phrase {U : Unicode} (unit units s : pystr) : Prop :=
  exists pre ds ws u post,
    s = pre ++ ds ++ ws ++ u ++ post /\
    digits ds /\
    Forall (fun c => is_space c = true) ws /\
    (same_word_ci unit u \/ same_word_ci units u).



(** The scoring when the feasibility adjustment is reached. *)
Definition before_feasibility (budget_category urgency_level
    subject_complexity : pystr) : scoring :=
  complexity_adjust subject_complexity
    (urgency_adjust urgency_level
       (budget_adjust budget_category (50, []))).

(* ================================================================= *)
(** ** Facts on strings *)

Lemma str_eqb_eq (a b : pystr) : str_eqb a b = true <-> a = b.
Proof.
  unfold str_eqb. destruct (list_eq_dec N.eq_dec a b); split; congruence.
Qed.

Lemma startswith_spec (s p : pystr) :
  startswith s p = true <-> exists post, s = p ++ post.
Proof.
  revert s. induction p as [|x p IH]; intros s; simpl.
  - split; [exists s; reflexivity | reflexivity].
  - destruct s as [|c s].
    + split; [discriminate | intros [post H]; discriminate].
    + rewrite andb_true_iff, N.eqb_eq, IH. split.
      * intros [-> [post ->]]. exists post. reflexivity.
      * intros [post H]. injection H as -> ->. split; [reflexivity | eauto].
Qed.

Lemma contains_spec (hay needle : pystr) :
  contains hay needle = true <-> infix needle hay.
Proof.
  unfold infix. induction hay as [|c hay IH].
  - simpl. rewrite orb_false_r, startswith_spec. split.
    + intros [post H]. exists [], post. exact H.
    + intros [pre [post H]]. destruct pre; [eauto | discriminate].
  - cbn [contains]. rewrite orb_true_iff, startswith_spec, IH. split.
    + intros [[post H] | [pre [post H]]].
      * exists [], post. exact H.
      * exists (c :: pre), post. rewrite H. reflexivity.
    + intros [[|x pre] [post H]].
      * left. exists post. exact H.
      * right. injection H as _ H. eauto.
Qed.

Lemma suffix_refl (s : pystr) : suffix s s.
Proof. exists []. reflexivity. Qed.

Lemma suffix_trans (a b c : pystr) : suffix a b -> suffix b c -> suffix a c.
Proof.
  intros [p ->] [q ->]. exists (q ++ p). now rewrite app_assoc.
Qed.

Lemma suffix_cons (c : codepoint) (s : pystr) : suffix s (c :: s).
Proof. exists [c]. reflexivity. Qed.

Lemma suffix_Forall (P : codepoint -> Prop) (s' s : pystr) :
  suffix s' s -> Forall P s -> Forall P s'.
Proof. intros [p ->] H. apply Forall_app in H. tauto. Qed.

Lemma firstn_consumed (w s' : pystr) :
  firstn (length (w ++ s') - length s') (w ++ s') = w.
Proof.
  rewrite length_app, Nat.add_sub.
  rewrite firstn_app, Nat.sub_diag, firstn_all. simpl. now rewrite app_nil_r.
Qed.

(* ================================================================= *)
(** ** The matcher against the words of a pattern *)

Section MatcherFacts.
Context {U : Unicode}.
Variable ignorecase : bool.

Section Soundness.
Variable A : Type.
Implicit Types (k : @cont A) (g : option pystr).

Lemma one_char_sound (p : codepoint -> bool) s g k a :
  one_char p s g k = Some a ->
  exists c s', s = c :: s' /\ p c = true /\ k s' g = Some a.
Proof.
  destruct s as [|c s']; simpl; [discriminate|].
  destruct (p c) eqn:E; [|discriminate]. eauto.
Qed.

Lemma star_loop_sound (r : regex)
    (IH : forall s g k a, run ignorecase r s g k = Some a ->
          exists w s' g', s = w ++ s' /\ Matches ignorecase r w g g' /\
                          k s' g' = Some a)
    n s g k a :
  star_loop (run ignorecase (A:=A) r) n s g k = Some a ->
  exists w s' g', s = w ++ s' /\ Matches ignorecase (Star r) w g g' /\
                  k s' g' = Some a.
Proof.
  revert s g. induction n as [|n IHn]; intros s g; simpl.
  - intros H. exists [], s, g. repeat split; [constructor | exact H].
  - destruct (run ignorecase r s g _) as [a0|] eqn:E.
    + intros [= ->]. apply IH in E. destruct E as (w1 & s1 & g1 & -> & M1 & K).
      destruct (length s1 <? length (w1 ++ s1))%nat eqn:L; [|discriminate].
      apply IHn in K. destruct K as (w2 & s2 & g2 & -> & M2 & K).
      exists (w1 ++ w2), s2, g2. rewrite app_assoc. repeat split; [|exact K].
      apply M_star_round with g1; [|exact M1|exact M2].
      intros ->. apply Nat.ltb_lt in L. simpl in L. lia.
    + intros H. exists [], s, g. repeat split; [constructor | exact H].
Qed.

Theorem run_sound (r : regex) : forall s g k a,
  run ignorecase r s g k = Some a ->
  exists w s' g', s = w ++ s' /\ Matches ignorecase r w g g' /\
                  k s' g' = Some a.
Proof.
  induction r as [| | |l|r1 IH1 r2 IH2|r1 IH1 r2 IH2|r IH|r IH];
    intros s g k a; simpl.
  - intros H. exists [], s, g. repeat split; [constructor | exact H].
  - intros H. apply one_char_sound in H. destruct H as (c & s' & -> & P & K).
    exists [c], s', g. repeat split; [now constructor | exact K].
  - intros H. apply one_char_sound in H. destruct H as (c & s' & -> & P & K).
    exists [c], s', g. repeat split; [now constructor | exact K].
  - intros H. apply one_char_sound in H. destruct H as (c & s' & -> & P & K).
    exists [c], s', g. repeat split; [now constructor | exact K].
  - intros H. apply IH1 in H. destruct H as (w1 & s1 & g1 & -> & M1 & H).
    apply IH2 in H. destruct H as (w2 & s2 & g2 & -> & M2 & K).
    exists (w1 ++ w2), s2, g2. rewrite app_assoc.
    repeat split; [econstructor; eassumption | exact K].
  - destruct (run ignorecase r1 s g k) as [a0|] eqn:E.
    + intros [= ->]. apply IH1 in E. destruct E as (w & s' & g' & -> & M & K).
      exists w, s', g'. repeat split; [now apply M_alt_l | exact K].
    + intros H. apply IH2 in H. destruct H as (w & s' & g' & -> & M & K).
      exists w, s', g'. repeat split; [now apply M_alt_r | exact K].
  - apply star_loop_sound. exact IH.
  - intros H. apply IH in H. destruct H as (w & s' & g' & -> & M & K).
    rewrite firstn_consumed in K.
    exists w, s', (Some w). repeat split; [econstructor; eassumption | exact K].
Qed.

(** A match needs its continuation to succeed somewhere. *)
Corollary run_fail (r : regex) s g k :
  (forall s' g', k s' g' = None) -> run ignorecase r s g k = None.
Proof.
  intros H. destruct (run ignorecase r s g k) as [a|] eqn:E; [|reflexivity].
  apply run_sound in E. destruct E as (? & s' & g' & _ & _ & K).
  rewrite H in K. discriminate.
Qed.

Theorem run_complete (r : regex) w g g' :
  Matches ignorecase r w g g' ->
  forall s' k a, k s' g' = Some a ->
  exists a', run ignorecase r (w ++ s') g k = Some a'.
Proof.
  intros M.
  enough (forall s' k a, k s' g' = Some a ->
            (exists a', run ignorecase r (w ++ s') g k = Some a') /\
            (forall r0 n, r = Star r0 -> (length (w ++ s') <= n)%nat ->
               exists a', star_loop (run ignorecase r0) n (w ++ s') g k
                          = Some a')) as H
    by (intros s' k a K; exact (proj1 (H s' k a K))).
  induction M; intros s' k a K.
  - split; [simpl; eauto | discriminate].
  - split; [|discriminate]. cbn. rewrite H. eauto.
  - split; [|discriminate]. cbn. rewrite H. eauto.
  - split; [|discriminate]. cbn. rewrite H. eauto.
  - split; [|discriminate]. simpl. rewrite <- app_assoc.
    destruct (IHM2 s' k a K) as [[a2 H2] _].
    exact (proj1 (IHM1 (w2 ++ s') _ a2 H2)).
  - split; [|discriminate]. simpl.
    destruct (IHM s' k a K) as [[a1 H1] _]. rewrite H1. eauto.
  - split; [|discriminate]. simpl.
    destruct (run ignorecase r1 (w ++ s') g k); [eauto|].
    exact (proj1 (IHM s' k a K)).
  - assert (L : forall n, exists a',
               star_loop (run ignorecase (A:=A) r) n ([] ++ s') g k = Some a').
    { intros [|n]; simpl; [eauto|].
      destruct (run ignorecase r s' g _); [eauto|]. eauto. }
    split; [apply L | intros r0 n [= <-] _; apply L].
  - assert (L : forall n, (length ((w1 ++ w2) ++ s') <= n)%nat ->
               exists a', star_loop (run ignorecase (A:=A) r) n
                            ((w1 ++ w2) ++ s') g k = Some a').
    { intros n Hn. rewrite <- app_assoc in *.
      destruct n as [|n].
      - destruct w1; [congruence | simpl in Hn; lia].
      - cbn [star_loop].
        destruct (proj2 (IHM2 s' k a K) r n eq_refl) as [a2 H2].
        { rewrite (length_app w1) in Hn.
          destruct w1; [congruence | simpl in Hn; lia]. }
        destruct (IHM1 (w2 ++ s')
                    (fun s1 g1' =>
                       if (length s1 <? length (w1 ++ w2 ++ s'))%nat
                       then star_loop (run ignorecase r) n s1 g1' k
                       else None) a2) as [[a1 H1] _].
        { replace (length (w2 ++ s') <? length (w1 ++ w2 ++ s'))%nat with true.
          - exact H2.
          - symmetry. apply Nat.ltb_lt. rewrite (length_app w1).
            destruct w1; [congruence | simpl; lia]. }
        rewrite H1. eauto. }
    split; [simpl; apply L; lia | intros r0 n [= <-]; apply L].
  - split; [|discriminate]. simpl.
    refine (proj1 (IHM s' (fun s1 _ =>
              k s1 (Some (firstn (length (w ++ s') - length s1) (w ++ s')))) a _)).
    rewrite firstn_consumed. exact K.
Qed.

End Soundness.
End MatcherFacts.

Section SearchFacts.
Context {U : Unicode}.
Variable ignorecase : bool.

Lemma match_at_sound (r : regex) (s : pystr) (m : match_obj) :
  match_at ignorecase r s = Some m ->
  s = group0 m ++ rest m /\ Matches ignorecase r (group0 m) None (group1 m).
Proof.
  unfold match_at. intros H. apply run_sound in H.
  destruct H as (w & s' & g' & -> & M & [= <-]). simpl.
  rewrite firstn_consumed. split; [reflexivity | exact M].
Qed.

Lemma match_at_complete (r : regex) (w post : pystr) (g : option pystr) :
  Matches ignorecase r w None g ->
  exists m, match_at ignorecase r (w ++ post) = Some m.
Proof.
  intros M. unfold match_at.
  eapply run_complete with (s' := post); [exact M | reflexivity].
Qed.

Lemma search_unfold (r : regex) (s : pystr) :
  search ignorecase r s =
  match match_at ignorecase r s with
  | Some m => Some m
  | None =>
      match s with
      | [] => None
      | _ :: s' => search ignorecase r s'
      end
  end.
Proof. destruct s; reflexivity. Qed.

(** The match that [search] returns: a word of the pattern, at a place
    before which the pattern matches nowhere. *)
Theorem search_sound (r : regex) (s : pystr) (m : match_obj) :
  search ignorecase r s = Some m ->
  exists pre,
    s = pre ++ group0 m ++ rest m /\
    Matches ignorecase r (group0 m) None (group1 m) /\
    forall p q, pre = p ++ q -> q <> [] ->
      match_at ignorecase r (q ++ group0 m ++ rest m) = None.
Proof.
  induction s as [|c s IH]; simpl.
  - destruct (match_at ignorecase r []) as [m0|] eqn:E; [|discriminate].
    intros [= ->]. apply match_at_sound in E. destruct E as [E M].
    exists []. repeat split; [exact E | exact M |].
    intros p q H. apply eq_sym, app_eq_nil in H. tauto.
  - destruct (match_at ignorecase r (c :: s)) as [m0|] eqn:E.
    + intros [= ->]. apply match_at_sound in E. destruct E as [E M].
      exists []. repeat split; [exact E | exact M |].
      intros p q H. apply eq_sym, app_eq_nil in H. tauto.
    + intros H. destruct (IH H) as (pre & -> & M & L).
      exists (c :: pre). repeat split; [exact M|].
      intros [|x p] q Hq Hne.
      * simpl in Hq. subst q. exact E.
      * injection Hq as -> ->. now apply L with p.
Qed.

Theorem search_complete (r : regex) (s : pystr) :
  occurs ignorecase r s -> exists m, search ignorecase r s = Some m.
Proof.
  intros (pre & w & post & g & -> & M).
  induction pre as [|c pre IH].
  - destruct (match_at_complete post M) as [m E].
    rewrite app_nil_l, search_unfold, E. eauto.
  - destruct IH as [m E]. rewrite <- app_comm_cons, search_unfold.
    destruct (match_at ignorecase r (c :: pre ++ w ++ post)); [eauto|].
    exists m. exact E.
Qed.

Corollary search_some_iff (r : regex) (s : pystr) :
  (exists m, search ignorecase r s = Some m) <-> occurs ignorecase r s.
Proof.
  split; [|apply search_complete].
  intros [m H]. apply search_sound in H. destruct H as (pre & E & M & _).
  exists pre, (group0 m), (rest m), (group1 m). tauto.
Qed.

Corollary search_none_iff (r : regex) (s : pystr) :
  search ignorecase r s = None <-> ~ occurs ignorecase r s.
Proof.
  rewrite <- search_some_iff. split.
  - intros H [m E]. congruence.
  - intros H. destruct (search ignorecase r s) eqn:E; [|reflexivity].
    exfalso. eauto.
Qed.

(** The bound of [findall] is enough: a larger one changes nothing. *)
Lemma findall_from_enough (r : regex) : forall n m s,
  (length s < n)%nat -> (length s < m)%nat ->
  findall_from ignorecase n r s = findall_from ignorecase m r s.
Proof.
  induction n as [|n IH]; intros [|m] s Hn Hm; try lia. simpl.
  destruct (match_at ignorecase r s) as [mo|] eqn:E.
  - f_equal. destruct (length (rest mo) <? length s)%nat eqn:L.
    + apply Nat.ltb_lt in L. apply IH; lia.
    + destruct s; [reflexivity|]. simpl in *. apply IH; lia.
  - destruct s; [reflexivity|]. simpl in *. apply IH; lia.
Qed.

(** Every text that [findall] returns is a word of the pattern. *)
Lemma findall_from_words (r : regex) : forall n s,
  Forall (fun w => exists g, Matches ignorecase r w None g)
         (findall_from ignorecase n r s).
Proof.
  induction n as [|n IH]; intros s; simpl; [constructor|].
  destruct (match_at ignorecase r s) as [mo|] eqn:E.
  - constructor.
    + apply match_at_sound in E. exists (group1 mo). tauto.
    + destruct (length (rest mo) <? length s)%nat; [apply IH|].
      destruct s; [constructor | apply IH].
  - destruct s; [constructor | apply IH].
Qed.

End SearchFacts.

(** Databases that classify the characters of a text alike give the same
    matches on it. *)
Section Agreement.
Variables U U' : Unicode.
Variable ignorecase : bool.

Lemma run_agree (A : Type) (r : regex) : forall s g (k k' : @cont A),
  Forall (same_class U U' ignorecase r) s ->
  (forall s' g', suffix s' s -> k s' g' = k' s' g') ->
  @run U ignorecase A r s g k = @run U' ignorecase A r s g k'.
Proof.
  induction r as [| | |l|r1 IH1 r2 IH2|r1 IH1 r2 IH2|r IH|r IH];
    intros s g k k' F K; simpl in *.
  - apply K, suffix_refl.
  - destruct s as [|c s]; [reflexivity|]. inversion_clear F as [|? ? Hc _].
    cbn. rewrite Hc. destruct (@is_digit U' c); [|reflexivity].
    apply K, suffix_cons.
  - destruct s as [|c s]; [reflexivity|]. inversion_clear F as [|? ? Hc _].
    cbn. rewrite Hc. destruct (@is_space U' c); [|reflexivity].
    apply K, suffix_cons.
  - destruct s as [|c s]; [reflexivity|]. inversion_clear F as [|? ? Hc _].
    cbn. rewrite Hc. destruct (@lit_eq U' ignorecase l c); [|reflexivity].
    apply K, suffix_cons.
  - apply IH1.
    + eapply Forall_impl; [|exact F]. simpl. tauto.
    + intros s' g' S. apply IH2.
      * eapply suffix_Forall; [exact S|].
        eapply Forall_impl; [|exact F]. simpl. tauto.
      * intros s2 g2 S2. apply K. eapply suffix_trans; eassumption.
  - rewrite (IH1 s g k k'), (IH2 s g k k'); try assumption;
      try (eapply Forall_impl; [|exact F]; simpl; tauto).
    reflexivity.
  - generalize (length s) as n. intros n. revert s g F K.
    induction n as [|n IHn]; intros s g F K; simpl.
    + apply K, suffix_refl.
    + rewrite (IH s g _ (fun s' g' =>
                 if (length s' <? length s)%nat
                 then star_loop (@run U' ignorecase A r) n s' g' k'
                 else None) F).
      * rewrite (K s g (suffix_refl s)). reflexivity.
      * intros s' g' S. destruct (length s' <? length s)%nat; [|reflexivity].
        apply IHn.
        -- eapply suffix_Forall; eassumption.
        -- intros s2 g2 S2. apply K. eapply suffix_trans; eassumption.
  - apply IH; [exact F|]. intros s' g' S. apply K, S.
Qed.

Lemma match_at_agree (r : regex) (s : pystr) :
  Forall (same_class U U' ignorecase r) s ->
  @match_at U ignorecase r s = @match_at U' ignorecase r s.
Proof. intros F. unfold match_at. apply run_agree; [exact F | reflexivity]. Qed.

Lemma search_agree (r : regex) (s : pystr) :
  Forall (same_class U U' ignorecase r) s ->
  @search U ignorecase r s = @search U' ignorecase r s.
Proof.
  induction s as [|c s IH]; intros F; simpl.
  - now rewrite match_at_agree.
  - rewrite match_at_agree by exact F.
    destruct (@match_at U' ignorecase r (c :: s)); [reflexivity|].
    apply IH. now inversion F.
Qed.

Lemma findall_agree (r : regex) (s : pystr) :
  Forall (same_class U U' ignorecase r) s ->
  @findall U ignorecase r s = @findall U' ignorecase r s.
Proof.
  unfold findall. generalize (S (length s)) as n. intros n. revert s.
  induction n as [|n IH]; intros s F; simpl; [reflexivity|].
  rewrite match_at_agree by exact F.
  destruct (@match_at U' ignorecase r s) as [mo|] eqn:E.
  - f_equal. destruct (length (rest mo) <? length s)%nat.
    + apply IH. apply match_at_sound in E. destruct E as [E _].
      eapply suffix_Forall; [|exact F]. exists (group0 mo). exact E.
    + destruct s; [reflexivity|]. apply IH. now inversion F.
  - destruct s; [reflexivity|]. apply IH. now inversion F.
Qed.

End Agreement.

(* ================================================================= *)
(** ** The words of the three patterns, and [int] on them *)

Section Words.
Context {U : Unicode}.

Lemma Matches_accepts ignorecase r w g g' :
  Matches ignorecase r w g g' -> Forall (accepts ignorecase r) w.
Proof.
  induction 1; simpl in *;
    try (constructor; [assumption | constructor]).
  - constructor.
  - apply Forall_app. split; (eapply Forall_impl; [|eassumption]); tauto.
  - eapply Forall_impl; [|eassumption]. tauto.
  - eapply Forall_impl; [|eassumption]. tauto.
  - constructor.
  - apply Forall_app. split; assumption.
  - assumption.
Qed.

Lemma Matches_groupless ignorecase r w g g' :
  Matches ignorecase r w g g' -> groupless r = true -> g' = g.
Proof.
  induction 1; simpl; intros G; try reflexivity;
    try (apply andb_true_iff in G; destruct G as [G1 G2]).
  - rewrite IHMatches2, IHMatches1 by assumption. reflexivity.
  - auto.
  - auto.
  - rewrite IHMatches2, IHMatches1 by assumption. reflexivity.
  - discriminate.
Qed.

(** A word of [\d+]. *)
Lemma Matches_plus_digit ignorecase w g g' :
  Matches ignorecase (Plus Digit) w g g' -> digits w /\ g' = g.
Proof.
  intros M. split.
  - split.
    + inversion M as [| | | |? ? w1 w2 ? ? ? M1 _| | | | |]; subst.
      inversion M1; subst. discriminate.
    + apply Matches_accepts in M. eapply Forall_impl; [|exact M].
      simpl. tauto.
  - now apply Matches_groupless in M.
Qed.

Lemma decimal_range (c : codepoint) (v : Z) :
  decimal c = Some v -> 0 <= v <= 9.
Proof.
  unfold decimal, is_ascii, ascii_decimal.
  destruct (c <? 128)%N.
  - destruct ((48 <=? c) && (c <=? 57))%N eqn:E; [|discriminate].
    intros [= <-]. apply andb_true_iff in E. destruct E as [E1 E2].
    apply N.leb_le in E1, E2. lia.
  - apply decimal_ext_digit.
Qed.

Lemma int_digits_total : forall (s : pystr) (acc : Z),
  Forall (fun c => is_digit c = true) s -> 0 <= acc ->
  exists v, int_digits acc s = Some v /\ 0 <= v.
Proof.
  induction s as [|c s IH]; intros acc F Hacc; cbn [int_digits].
  - eauto.
  - inversion_clear F as [|? ? Hc Hs]. unfold is_digit in Hc.
    destruct (decimal c) as [v|] eqn:E; [|discriminate].
    apply decimal_range in E. apply IH; [exact Hs | lia].
Qed.

(** [int] does not raise on a text of digits. *)
Lemma py_int_digits (s : pystr) :
  digits s -> exists v, py_int s = Some v /\ 0 <= v.
Proof.
  intros [Hne F]. destruct s as [|c s]; [congruence|].
  unfold py_int. apply int_digits_total; [exact F | lia].
Qed.


End Words.

(** *** The words of [(\d+)\s*(?:unit|units)], spelled out *)

Section Phrases.
Context {U : Unicode}.

Lemma Matches_star_chars (ignorecase : bool) (r : regex)
    (P : codepoint -> Prop) (w : pystr) (g : option pystr) :
  (forall c, P c -> Matches ignorecase r [c] g g) ->
  Forall P w -> Matches ignorecase (Star r) w g g.
Proof.
  intros H. induction 1 as [|c w Hc _ IH]; [constructor|].
  change (c :: w) with ([c] ++ w).
  apply M_star_round with g; [discriminate | now apply H | exact IH].
Qed.

Lemma Matches_plus_digit_iff (ignorecase : bool) (w : pystr)
    (g g' : option pystr) :
  Matches ignorecase (Plus Digit) w g g' <-> digits w /\ g' = g.
Proof.
  split; [apply Matches_plus_digit|].
  intros [[Hne F] ->]. destruct w as [|c w]; [congruence|].
  inversion_clear F as [|? ? Hc Hw].
  change (c :: w) with ([c] ++ w). unfold Plus.
  apply M_cat with g; [now constructor|].
  apply Matches_star_chars with (P := fun c => is_digit c = true);
    [intros; now constructor | exact Hw].
Qed.

Lemma Matches_star_space_iff (ignorecase : bool) (w : pystr)
    (g g' : option pystr) :
  Matches ignorecase (Star Space) w g g'
  <-> Forall (fun c => is_space c = true) w /\ g' = g.
Proof.
  split.
  - intros M. split; [exact (Matches_accepts M)|].
    now apply Matches_groupless in M.
  - intros [F ->].
    apply Matches_star_chars with (P := fun c => is_space c = true);
      [intros; now constructor | exact F].
Qed.

Lemma Matches_word_iff (ignorecase : bool) (x : pystr) :
  forall (u : pystr) (g g' : option pystr),
  Matches ignorecase (Word x) u g g'
  <-> Forall2 (fun l c => lit_eq ignorecase l c = true) x u /\ g' = g.
Proof.
  induction x as [|l x IH]; intros u g g'; simpl.
  - split.
    + intros M. inversion M; subst. split; constructor.
    + intros [F ->]. inversion F; subst. constructor.
  - split.
    + intros M.
      inversion M as [| | | |? ? w1 w2 ? g1 ? M1 M2| | | | |]; subst.
      inversion M1; subst. apply IH in M2. destruct M2 as [F ->].
      split; [now constructor | reflexivity].
    + intros [F ->]. inversion F as [|? c ? u' Hc F']; subst.
      change (c :: u') with ([c] ++ u').
      apply M_cat with g; [now constructor | apply IH; tauto].
Qed.

(** A word of the pattern is a number, blanks, and the unit; group 1 is the
    number. *)
Lemma unit_re_words (unit units w : pystr) (g : option pystr) :
  Matches true
    (Cat (Group (Plus Digit)) (Cat (Star Space) (Alt (Word unit) (Word units))))
    w None g
  <-> exists ds ws u,
        w = ds ++ ws ++ u /\ g = Some ds /\ digits ds /\
        Forall (fun c => is_space c = true) ws /\
        (same_word_ci unit u \/ same_word_ci units u).
Proof.
  unfold same_word_ci. split.
  - intros M.
    inversion M as [| | | |? ? ds w2 ? g1 ? M1 M2| | | | |]; subst.
    inversion M1 as [| | | | | | | | |? ? ? ? MP]; subst.
    apply Matches_plus_digit_iff in MP. destruct MP as [D _].
    inversion M2 as [| | | |? ? ws u ? g2 ? M3 M4| | | | |]; subst.
    apply Matches_star_space_iff in M3. destruct M3 as [S ->].
    exists ds, ws, u.
    inversion M4 as [| | | | |? ? ? ? ? M5|? ? ? ? ? M5| | |]; subst;
      apply Matches_word_iff in M5; destruct M5 as [F ->]; tauto.
  - intros (ds & ws & u & -> & -> & D & S & W).
    apply M_cat with (Some ds).
    + apply M_group with None. apply Matches_plus_digit_iff. tauto.
    + apply M_cat with (Some ds).
      * apply Matches_star_space_iff. tauto.
      * destruct W as [W|W]; [apply M_alt_l | apply M_alt_r];
          apply Matches_word_iff; tauto.
Qed.

Lemma occurs_phrase (unit units s : pystr) :
  occurs true
    (Cat (Group (Plus Digit)) (Cat (Star Space) (Alt (Word unit) (Word units))))
    s
  <-> has_phrase unit units s.
Proof.
  unfold occurs, has_phrase. split.
  - intros (pre & w & post & g & -> & M). apply unit_re_words in M.
    destruct M as (ds & ws & u & -> & _ & D & S & W).
    exists pre, ds, ws, u, post. rewrite <- !app_assoc. tauto.
  - intros (pre & ds & ws & u & post & -> & D & S & W).
    exists pre, (ds ++ ws ++ u), post, (Some ds).
    split; [now rewrite <- !app_assoc|].
    apply unit_re_words. exists ds, ws, u. tauto.
Qed.


End Phrases.

(** *** [str] and [int] of an integer *)

Section IntStr.
Context {U : Unicode}.

Lemma int_digits_uint_acc (d : Decimal.uint) : forall acc : positive,
  int_digits (Z.pos acc) (uint_digits d)
  = Some (Z.pos (Pos.of_uint_acc d acc)).
Proof.
  induction d as [|d IH|d IH|d IH|d IH|d IH|d IH|d IH|d IH|d IH|d IH];
    intros acc; [reflexivity|..];
    cbn [uint_digits int_digits Pos.of_uint_acc];
    match goal with
    | |- context [decimal ?c] =>
        let v := eval vm_compute in (decimal c) in
        change (decimal c) with v
    end; cbv iota; rewrite <- IH; f_equal; lia.
Qed.

Lemma int_digits_uint (d : Decimal.uint) :
  int_digits 0 (uint_digits d) = Some (Z.of_N (Pos.of_uint d)).
Proof.
  induction d as [|d IH|d IH|d IH|d IH|d IH|d IH|d IH|d IH|d IH|d IH];
    [reflexivity| exact IH |..];
    cbn [uint_digits int_digits Pos.of_uint];
    match goal with
    | |- context [decimal ?c] =>
        let v := eval vm_compute in (decimal c) in
        change (decimal c) with v
    end; cbv iota; apply int_digits_uint_acc.
Qed.

(** What [str] writes for an integer that is not negative, [int] reads
    back. *)
Lemma py_int_py_str (z : Z) : 0 <= z -> py_int (py_str z) = Some z.
Proof.
  intros H. destruct z as [|p|p]; [reflexivity| |lia].
  unfold py_str. cbn [Z.to_int].
  assert (E : int_digits 0 (uint_digits (Pos.to_uint p)) = Some (Z.pos p)).
  { rewrite int_digits_uint, DecimalPos.Unsigned.of_to. reflexivity. }
  unfold py_int. destruct (uint_digits (Pos.to_uint p)) eqn:D; [|exact E].
  pose proof (DecimalPos.Unsigned.to_uint_nonnil p).
  destruct (Pos.to_uint p); try discriminate D. congruence.
Qed.

End IntStr.

(* ================================================================= *)
(** ** The extractors *)

Section UrgencyFacts.
Context {U : Unicode}.

Lemma determine_urgency_unfold (c : codepoint) (s : pystr) :
  _determine_urgency (Some (c :: s)) =
  match search true hours_re (c :: s) with
  | Some m =>
      bind (int_group1 m)
           (fun hours => Some (if hours <=? 48 then Immediate else Short_Term))
  | None =>
      match search true days_re (c :: s) with
      | Some m =>
          bind (int_group1 m)
               (fun days => if days <=? 2 then Some Immediate
                            else if days <=? 7 then Some Short_Term
                            else Some Long_Term)
      | None => Some Long_Term
      end
  end.
Proof. reflexivity. Qed.




End UrgencyFacts.

Section BudgetFacts.
Context {U : Unicode}.

Lemma is_digit_comma : is_digit 44%N = false.
Proof. reflexivity. Qed.

(** A word of [\d+(?:,\d{3})*]: digits first, then digits and commas. *)
Lemma budget_word (w : pystr) (g : option pystr) :
  Matches false budget_re w None g ->
  exists w1 w2, w = w1 ++ w2 /\ digits w1 /\
    Forall (fun c => is_digit c = true \/ c = 44%N) w2.
Proof.
  intros M.
  inversion M as [| | | |? ? w1 w2 ? g1 ? M1 M2| | | | |]; subst.
  apply Matches_plus_digit in M1. destruct M1 as [D _].
  exists w1, w2. repeat split; try apply D.
  apply Matches_accepts in M2. eapply Forall_impl; [|exact M2].
  simpl. unfold lit_eq. intros c [H|H]; [right; now apply N.eqb_eq | tauto].
Qed.

Lemma replace_app (old : codepoint) (new a b : pystr) :
  replace old new (a ++ b) = replace old new a ++ replace old new b.
Proof. apply flat_map_app. Qed.

Lemma replace_comma_digits (w : pystr) :
  Forall (fun c => is_digit c = true) w -> replace 44%N [] w = w.
Proof.
  induction 1 as [|c w Hc _ IH]; [reflexivity|].
  unfold replace in *. simpl. rewrite IH.
  destruct (c =? 44)%N eqn:E; [|reflexivity].
  apply N.eqb_eq in E. subst c. rewrite is_digit_comma in Hc. discriminate.
Qed.

Lemma replace_comma_mixed (w : pystr) :
  Forall (fun c => is_digit c = true \/ c = 44%N) w ->
  Forall (fun c => is_digit c = true) (replace 44%N [] w).
Proof.
  induction 1 as [|c w Hc _ IH]; [constructor|].
  unfold replace in *. simpl.
  destruct (c =? 44)%N eqn:E; [exact IH|].
  apply N.eqb_neq in E. constructor; [tauto | exact IH].
Qed.

(** The text of a match, its commas removed, is a text of digits: [int]
    reads it. *)
Lemma budget_token_int (w : pystr) (g : option pystr) :
  Matches false budget_re w None g ->
  exists a, py_int (replace 44%N [] w) = Some a /\ 0 <= a.
Proof.
  intros M. apply budget_word in M.
  destruct M as (w1 & w2 & -> & [Hne D] & F).
  apply py_int_digits. rewrite replace_app, (replace_comma_digits D). split.
  - destruct w1; [congruence | discriminate].
  - apply Forall_app. split; [exact D | now apply replace_comma_mixed].
Qed.





End BudgetFacts.

(** *** [min], [max] and comprehensions *)

Lemma fold_min_spec (l : list Z) (x : Z) :
  least (fold_left Z.min l x) (x :: l).
Proof.
  revert x. induction l as [|y l IH]; intros x; simpl.
  - split; [now left | repeat constructor; lia].
  - destruct (IH (Z.min x y)) as [I F]. split.
    + destruct I as [I|I]; [|right; right; exact I].
      destruct (Z.min_spec x y) as [[_ E]|[_ E]];
        [left | right; left]; congruence.
    + inversion_clear F as [|? ? F1 F2].
      constructor; [lia | constructor; [lia | exact F2]].
Qed.

Lemma fold_max_spec (l : list Z) (x : Z) :
  greatest (fold_left Z.max l x) (x :: l).
Proof.
  revert x. induction l as [|y l IH]; intros x; simpl.
  - split; [now left | repeat constructor; lia].
  - destruct (IH (Z.max x y)) as [I F]. split.
    + destruct I as [I|I]; [|right; right; exact I].
      destruct (Z.max_spec x y) as [[_ E]|[_ E]];
        [right; left | left]; congruence.
    + inversion_clear F as [|? ? F1 F2].
      constructor; [lia | constructor; [lia | exact F2]].
Qed.

Lemma py_min_spec (l : list Z) :
  l <> [] -> exists lo, py_min l = Some lo /\ least lo l.
Proof.
  destruct l as [|x l]; [congruence|]. intros _.
  exists (fold_left Z.min l x). split; [reflexivity | apply fold_min_spec].
Qed.

Lemma py_max_spec (l : list Z) :
  l <> [] -> exists hi, py_max l = Some hi /\ greatest hi l.
Proof.
  destruct l as [|x l]; [congruence|]. intros _.
  exists (fold_left Z.max l x). split; [reflexivity | apply fold_max_spec].
Qed.

Lemma map_opt_total (A B : Type) (f : A -> option B) (P : B -> Prop)
    (l : list A) :
  Forall (fun x => exists y, f x = Some y /\ P y) l ->
  exists ys, map_opt f l = Some ys /\
             Forall2 (fun x y => f x = Some y) l ys /\ Forall P ys.
Proof.
  induction 1 as [|x l (y & Hy & Py) _ (ys & Hys & F2 & FP)]; simpl.
  - exists []. repeat split; constructor.
  - rewrite Hy, Hys. exists (y :: ys).
    repeat split; constructor; assumption.
Qed.

Section ParseBudgetFacts.
Context {U : Unicode}.

Lemma parse_budget_unfold (c : codepoint) (s : pystr) :
  _parse_budget (Some (c :: s)) =
  match findall false budget_re (c :: s) with
  | [] => Some (Unknown, Unknown)
  | numbers =>
      bind (map_opt (fun num => py_int (replace 44%N [] num)) numbers)
        (fun amounts =>
           bind (py_min amounts) (fun low =>
           bind (py_max amounts) (fun high =>
             Some (if negb (low =? high)
                   then [RUPEE] ++ py_str low ++ [EN_DASH] ++ [RUPEE]
                          ++ py_str high
                   else [RUPEE] ++ py_str low,
                   if high <=? 3000 then Low
                   else if high <=? 8000 then Medium
                   else High))))
  end.
Proof.
  unfold _parse_budget. destruct (findall false budget_re (c :: s)); reflexivity.
Qed.

(** With a match, [_parse_budget] returns, and what it returns is computed
    from the least and the greatest of the numbers read. *)
Lemma parse_budget_numbers (s : pystr) :
  findall false budget_re s <> [] ->
  exists amounts lo hi,
    Forall2 (fun num a => py_int (replace 44%N [] num) = Some a)
            (findall false budget_re s) amounts /\
    Forall (fun a => 0 <= a) amounts /\
    least lo amounts /\ greatest hi amounts /\
    _parse_budget (Some s) =
    Some (if negb (lo =? hi)
          then [RUPEE] ++ py_str lo ++ [EN_DASH] ++ [RUPEE] ++ py_str hi
          else [RUPEE] ++ py_str lo,
          if hi <=? 3000 then Low
          else if hi <=? 8000 then Medium
          else High).
Proof.
  intros Hne. destruct s as [|c s]; [exfalso; apply Hne; reflexivity|].
  rewrite parse_budget_unfold.
  pose proof (findall_from_words false budget_re (S (length (c :: s))) (c :: s))
    as W. fold (findall false budget_re (c :: s)) in W.
  destruct (findall false budget_re (c :: s)) as [|num numbers] eqn:E;
    [congruence|].
  destruct (map_opt_total (fun num => py_int (replace 44%N [] num))
              (fun a => 0 <= a) (l := num :: numbers)) as (amounts & -> & F2 & FP).
  { eapply Forall_impl; [|exact W]. intros w [g M].
    exact (budget_token_int M). }
  assert (Hamounts : amounts <> []) by (inversion F2; discriminate).
  cbn [bind].
  destruct (py_min_spec Hamounts) as (lo & -> & Hlo).
  destruct (py_max_spec Hamounts) as (hi & -> & Hhi).
  cbn [bind]. exists amounts, lo, hi. repeat split; try assumption; apply Hlo || apply Hhi.
Qed.


End ParseBudgetFacts.

(** *** Texts with the rupee sign and the en dash *)

Section Currency.
Context {U : Unicode}.

Lemma is_digit_rupee : is_digit RUPEE = false.
Proof.
  unfold is_digit, decimal. change (is_ascii RUPEE) with false.
  cbv iota. now rewrite decimal_ext_rupee.
Qed.

Lemma is_digit_en_dash : is_digit EN_DASH = false.
Proof.
  unfold is_digit, decimal. change (is_ascii EN_DASH) with false.
  cbv iota. now rewrite decimal_ext_en_dash.
Qed.

(** The budget pattern only asks whether a character is a digit. *)
Lemma same_class_budget (c : codepoint) :
  @is_digit U c = @is_digit ascii_only c ->
  same_class U ascii_only false budget_re c.
Proof. intros H. simpl. unfold lit_eq. tauto. Qed.

Lemma parse_budget_10000 :
  _parse_budget (Some ([RUPEE] ++ py "10000"))
  = Some ([RUPEE] ++ py "10000", High).
Proof.
  unfold _parse_budget. cbv zeta.
  rewrite (@findall_agree U ascii_only false budget_re).
  - vm_compute. reflexivity.
  - repeat constructor; apply same_class_budget;
      first [exact is_digit_rupee | reflexivity].
Qed.


End Currency.

Section AssessFacts.
Context {U : Unicode}.



Lemma assess_unfold (sub : pystr) (subjects : list pystr) :
  _assess_subject_complexity (Some (sub :: subjects)) =
  if keyword_hit high_complexity_keywords (sub :: subjects) then High
  else if keyword_hit medium_complexity_keywords (sub :: subjects) then Medium
  else Low.
Proof. reflexivity. Qed.


End AssessFacts.

Section FeasibilityFacts.
Context {U : Unicode}.

Lemma feasibility_unfold (c : codepoint) (location : pystr)
    (mode : option pystr) :
  _compute_location_feasibility (Some (c :: location)) mode =
  if truthy_opt mode &&
     match mode with
     | Some mode => str_eqb (lower mode) (py "online")
     | None => false
     end
  then 100
  else if existsb (fun term => contains (lower (c :: location)) term)
                  [py "sector"; py "society"; py "block"] then 80
  else if existsb (fun term => contains (lower (c :: location)) term)
                  [py "city"; py "town"; py "district"] then 60
  else 50.
Proof. reflexivity. Qed.


(** With a location, the online mode scores 100. *)
Lemma feasibility_online (c : codepoint) (location mode : pystr) :
  lower mode = py "online" ->
  _compute_location_feasibility (Some (c :: location)) (Some mode) = 100.
Proof.
  intros H. rewrite feasibility_unfold.
  assert (T : truthy_opt (Some mode) = true).
  { destruct mode; [discriminate H | reflexivity]. }
  rewrite T. simpl andb. rewrite (proj2 (str_eqb_eq _ _) H). reflexivity.
Qed.

End FeasibilityFacts.

(* ================================================================= *)
(** ** The aggregator *)





Section QualifyFacts.
Context {U : Unicode}.


End QualifyFacts.

(** Two distinct literals are distinct. *)
Ltac literals_differ :=
  let H := fresh in intro H; vm_compute in H; discriminate H.





(* ================================================================= *)
(** ** The properties of the specification *)

Section Properties.
Context {U : Unicode}.






(** C5, where the code departs from it.  Without a location, absent or
    empty, the online mode scores 50 and not 100: a lead that only says
    [mode = "online"] gets the feasibility score 50, the penalty of 5 and
    the sentence on the generic location.  With a location the online mode
    does score 100. *)
Theorem online_without_location_scores_50 :
  _compute_location_feasibility None (Some (py "online")) = 50 /\
  _compute_location_feasibility (Some []) (Some (py "online")) = 50 /\
  (exists r,
     qualify_lead default_agent lead_online = Some r /\
     Report.preferred_mode r = py "online" /\
     Report.location_feasibility_score r = 50 /\
     Report.lead_quality_score r = 45 /\
     Report.reasoning_summary r = generic_location_sentence) /\
  (forall (c : codepoint) (location mode : pystr),
     lower mode = py "online" ->
     _compute_location_feasibility (Some (c :: location)) (Some mode) = 100).
Proof.
  split; [reflexivity|]. split; [reflexivity|]. split.
  - eexists. split; [vm_compute; reflexivity|]. repeat split; reflexivity.
  - apply feasibility_online.
Qed.

(** C1.  The lead [{lead_id: "L1", budget: "₹10000", urgency: "within 2
    days", subjects: ["JEE"], location: "Sector 5", mode: "offline"}] has a
    High budget, an Immediate urgency, a High complexity and the
    feasibility score 80, which add up to 115; its report has the quality
    score 100, the label High, the intent level High Intent, the next agent
    Tutor Matching Agent and the confidence 100. *)
Theorem end_to_end_scenario :
  exists r,
    qualify_lead default_agent lead_L1 = Some r /\
    _parse_budget (py_or (Lead.budget lead_L1) (Lead.budget_range lead_L1))
      = Some (Report.budget_range_inferred r, High) /\
    Report.urgency_level r = Immediate /\
    Report.subject_complexity r = High /\
    Report.location_feasibility_score r = 80 /\
    fst (feasibility_adjust 80 (before_feasibility High Immediate High))
      = 115 /\
    clamp 115 = 100 /\
    Report.lead_quality_score r = 100 /\
    Report.lead_quality_label r = High /\
    Report.intent_level r = High_Intent /\
    Report.recommended_next_agent r = Tutor_Matching_Agent /\
    Report.confidence_in_recommendation r = 100.
Proof.
  pose proof parse_budget_10000 as B.
  unfold qualify_lead. cbv zeta.
  change (py_or (Lead.budget lead_L1) (Lead.budget_range lead_L1))
    with (Some ([RUPEE] ++ py "10000")).
  rewrite B. cbn [bind]. vm_compute.
  eexists. split; [reflexivity|]. repeat split; reflexivity.
Qed.




End Properties.

(* ================================================================= *)
(** ** The conditional statements at work on concrete inputs *)





(* ================================================================= *)
(** ** Further properties of the code *)

(** *** What the further statements are written with *)




(** An empty text, or an empty list, read as a missing one. *)
Definition absent_if_empty {A : Type} (o : option (list A))
    : option (list A) :=
  match o with
  | Some [] => None
  | _ => o
  end.

(** The lead in which every empty value is removed. *)
Definition without_empty_values (lead : Lead.t) : Lead.t :=
  {| Lead.lead_id := absent_if_empty (Lead.lead_id lead);
     Lead.mode_preference := absent_if_empty (Lead.mode_preference lead);
     Lead.mode := absent_if_empty (Lead.mode lead);
     Lead.subjects := absent_if_empty (Lead.subjects lead);
     Lead.budget := absent_if_empty (Lead.budget lead);
     Lead.budget_range := absent_if_empty (Lead.budget_range lead);
     Lead.urgency := absent_if_empty (Lead.urgency lead);
     Lead.location := absent_if_empty (Lead.location lead) |}.


(** The mode is the text ["online"], in any case. *)
Definition is_online {U : Unicode} (mode : option pystr) : Prop :=
  exists m, mode = Some m /\ lower m = py "online".

(** The location, lowered, contains one of the terms. *)
Definition names_one_of {U : Unicode} (terms : list pystr)
    (location : pystr) : Prop :=
  exists term, In term terms /\ infix term (lower location).

(** The terms of a precise location, and those of a generic one. *)
Definition precise_terms : list pystr :=
  [py "sector"; py "society"; py "block"].

Definition generic_terms : list pystr :=
  [py "city"; py "town"; py "district"].

(** What follows a number in the range that [_parse_budget] writes:
    nothing, or a character that is neither a digit nor a comma. *)
Definition ends_number {U : Unicode} (rest : pystr) : Prop :=
  match rest with
  | [] => True
  | c :: _ => is_digit c = false /\ c <> 44%N
  end.

(** [(?:,\d{3})], and the match of the budget pattern step by step. *)
Definition comma_group : regex := Cat (Lit 44%N) (Times3 Digit).

(** *** The size of each adjustment *)










Ltac split_clauses :=
  repeat match goal with |- _ /\ _ => split end.



Section FurtherProperties.
Context {U : Unicode}.





End FurtherProperties.

(** *** The reasoning summary and the memory tags *)



Section SummaryAndTags.
Context {U : Unicode}.




End SummaryAndTags.

(** *** Missing keys, empty values and the order of the keys *)

Lemma py_or_else_absent (A : Type) (a : option (list A)) (d : list A) :
  py_or_else (absent_if_empty a) d = py_or_else a d.
Proof. destruct a as [[|x l]|]; reflexivity. Qed.

Lemma py_or_else_or_absent (A : Type) (a b : option (list A)) (d : list A) :
  py_or_else (py_or (absent_if_empty a) (absent_if_empty b)) d
  = py_or_else (py_or a b) d.
Proof. destruct a as [[|x l]|], b as [[|y l']|]; reflexivity. Qed.

Section Keys.
Context {U : Unicode}.

Lemma parse_budget_absent (a b : option pystr) :
  _parse_budget (py_or (absent_if_empty a) (absent_if_empty b))
  = _parse_budget (py_or a b).
Proof. destruct a as [[|x l]|], b as [[|y l']|]; reflexivity. Qed.

Lemma determine_urgency_absent (a : option pystr) :
  _determine_urgency (absent_if_empty a) = _determine_urgency a.
Proof. destruct a as [[|x l]|]; reflexivity. Qed.

Lemma feasibility_absent (a mode : option pystr) :
  _compute_location_feasibility (absent_if_empty a) mode
  = _compute_location_feasibility a mode.
Proof. destruct a as [[|x l]|]; reflexivity. Qed.

(** X8.  A key bound to the empty text, or to the empty list, gives the
    report of a lead without this key. *)
Theorem empty_value_is_missing_key
    (self : LeadQualificationAgent) (lead : Lead.t) :
  qualify_lead self (without_empty_values lead) = qualify_lead self lead.
Proof.
  unfold qualify_lead, without_empty_values.
  cbn [Lead.lead_id Lead.mode_preference Lead.mode Lead.subjects Lead.budget
       Lead.budget_range Lead.urgency Lead.location].
  cbv zeta.
  rewrite parse_budget_absent, determine_urgency_absent, feasibility_absent.
  rewrite !py_or_else_absent, !py_or_else_or_absent.
  reflexivity.
Qed.


End Keys.

(** *** The extractors on their own *)

Section ExtractorProperties.
Context {U : Unicode}.

Lemma existsb_contains (terms : list pystr) (location : pystr) :
  existsb (fun term => contains (lower location) term) terms = true
  <-> names_one_of terms location.
Proof.
  unfold names_one_of. rewrite existsb_exists.
  split; intros (t & I & H); exists t; (split; [exact I|]);
    now apply contains_spec.
Qed.

Lemma online_test (mode : option pystr) :
  truthy_opt mode &&
    match mode with
    | Some m => str_eqb (lower m) (py "online")
    | None => false
    end = true
  <-> is_online mode.
Proof.
  unfold is_online. destruct mode as [m|].
  - rewrite andb_true_iff, str_eqb_eq. split.
    + intros [_ H]. eauto.
    + intros (m' & [= <-] & H). split; [|exact H].
      destruct m; [discriminate H | reflexivity].
  - split; [discriminate | intros (m & H & _); discriminate].
Qed.


(** X11.  The feasibility score, case by case: 100 exactly for a location
    that is not empty with the online mode; 80 exactly for a location that
    is not empty, another mode, and one of sector, society, block in the
    location; 60 exactly when none of these three is there and one of city,
    town, district is. So a location with both a sector and a city scores
    80. *)
Theorem feasibility_decision_table (location mode : option pystr) :
  let score := _compute_location_feasibility location mode in
  (score = 100
     <-> exists c l, location = Some (c :: l) /\ is_online mode) /\
  (score = 80
     <-> exists c l, location = Some (c :: l) /\ ~ is_online mode /\
                     names_one_of precise_terms (c :: l)) /\
  (score = 60
     <-> exists c l, location = Some (c :: l) /\ ~ is_online mode /\
                     ~ names_one_of precise_terms (c :: l) /\
                     names_one_of generic_terms (c :: l)).
Proof.
  cbv zeta. destruct location as [[|c l]|];
    try (cbn; repeat split; try discriminate;
         intros (? & ? & ? & _); discriminate).
  rewrite feasibility_unfold.
  pose proof (online_test mode) as O.
  pose proof (existsb_contains precise_terms (c :: l)) as P.
  pose proof (existsb_contains generic_terms (c :: l)) as G.
  unfold precise_terms, generic_terms in P, G.
  destruct (truthy_opt mode && _);
    [|destruct (existsb _ [py "sector"; _; _]);
      [|destruct (existsb _ [py "city"; _; _])]];
    repeat split;
    try discriminate;
    try (intros _; exists c, l; intuition congruence);
    intros (c0 & l0 & [= <- <-] & H); exfalso; intuition congruence.
Qed.

(** X12.  Adding subjects never lowers the complexity: High stays High,
    Medium stays Medium or becomes High, and a list that is not empty is
    never Unknown. *)
Theorem more_subjects_never_lower (subjects more : list pystr) :
  (_assess_subject_complexity (Some subjects) = High ->
   _assess_subject_complexity (Some (subjects ++ more)) = High) /\
  (_assess_subject_complexity (Some subjects) = Medium ->
   _assess_subject_complexity (Some (subjects ++ more)) = Medium \/
   _assess_subject_complexity (Some (subjects ++ more)) = High) /\
  (subjects <> [] ->
   _assess_subject_complexity (Some (subjects ++ more)) <> Unknown).
Proof.
  assert (K : forall keywords,
             keyword_hit keywords subjects = true ->
             keyword_hit keywords (subjects ++ more) = true).
  { intros keywords. unfold keyword_hit. rewrite existsb_app.
    intros ->. reflexivity. }
  destruct subjects as [|sub subjects].
  - split; [|split]; try congruence; intros H; vm_compute in H;
      discriminate H.
  - change ((sub :: subjects) ++ more) with (sub :: (subjects ++ more)).
    rewrite !assess_unfold.
    change (sub :: (subjects ++ more)) with ((sub :: subjects) ++ more).
    pose proof (K high_complexity_keywords) as KH.
    pose proof (K medium_complexity_keywords) as KM.
    destruct (keyword_hit high_complexity_keywords (sub :: subjects)).
    + rewrite KH by reflexivity.
      split_clauses; try solve [auto]; intros _; literals_differ.
    + destruct (keyword_hit medium_complexity_keywords (sub :: subjects)).
      * rewrite KM by reflexivity.
        destruct (keyword_hit high_complexity_keywords _);
          split_clauses; try solve [auto];
          try (intros H; exfalso; revert H; literals_differ);
          intros _; literals_differ.
      * split_clauses;
          try (intros H; exfalso; revert H; literals_differ).
        intros _.
        destruct (keyword_hit high_complexity_keywords _);
          [|destruct (keyword_hit medium_complexity_keywords _)];
          literals_differ.
Qed.


(** X14.  An urgency text without a decimal digit is Long-Term. *)
Theorem no_digit_is_long_term (s : pystr) :
  Forall (fun c => is_digit c = false) s ->
  _determine_urgency (Some s) = Some Long_Term.
Proof.
  intros F.
  assert (N : forall unit units, ~ has_phrase unit units s).
  { intros unit units (pre & ds & ws & u & post & -> & [Hne D] & _).
    apply Forall_app in F. destruct F as [_ F].
    apply Forall_app in F. destruct F as [F _].
    destruct ds as [|c ds]; [congruence|].
    inversion D; inversion F; congruence. }
  destruct s as [|c s]; [reflexivity|].
  rewrite determine_urgency_unfold.
  assert (Hh : search true hours_re (c :: s) = None).
  { apply search_none_iff. intros O.
    apply (occurs_phrase (py "hour") (py "hours")) in O.
    exact (N _ _ O). }
  assert (Hd : search true days_re (c :: s) = None).
  { apply search_none_iff. intros O.
    apply (occurs_phrase (py "day") (py "days")) in O.
    exact (N _ _ O). }
  now rewrite Hh, Hd.
Qed.

End ExtractorProperties.

(** *** Reading back the range that [_parse_budget] wrote *)

Section RoundTrip.
Context {U : Unicode}.

Lemma uint_digits_all (d : Decimal.uint) :
  Forall (fun c => is_digit c = true) (uint_digits d).
Proof.
  induction d; simpl; constructor; try assumption; reflexivity.
Qed.

(** What [str] writes for an integer that is not negative is a text of
    digits. *)
Lemma py_str_digits (z : Z) : 0 <= z -> digits (py_str z).
Proof.
  intros H. split; [|destruct z; try lia; apply uint_digits_all].
  destruct z as [|p|p]; [discriminate| |lia].
  unfold py_str. cbn [Z.to_int].
  pose proof (DecimalPos.Unsigned.to_uint_nonnil p).
  destruct (Pos.to_uint p); try discriminate. congruence.
Qed.

Section Loops.
Variable A : Type.

Lemma star_loop_some (body : pystr -> option pystr -> @cont A -> option A)
    (n : nat) (s : pystr) (g : option pystr) (k : @cont A) :
  (forall s' g', k s' g' <> None) -> star_loop body n s g k <> None.
Proof.
  intros K. destruct n as [|n]; simpl; [apply K|].
  destruct (body s g _); [discriminate | apply K].
Qed.

Lemma star_loop_digit (k : @cont A) (g : option pystr) (c : codepoint)
    (s : pystr) (n : nat) :
  is_digit c = true ->
  star_loop (run false Digit) (S n) (c :: s) g k
  = match star_loop (run false Digit) n s g k with
    | Some a => Some a
    | None => k (c :: s) g
    end.
Proof.
  intros H. cbn [star_loop run one_char]. rewrite H.
  replace (length s <? length (c :: s))%nat with true
    by (symmetry; apply Nat.ltb_lt; simpl; lia).
  reflexivity.
Qed.

(** The loop of [\d*] goes through a run of digits when what follows the
    loop cannot fail. *)
Lemma star_digit_run (k : @cont A) (g : option pystr) (rest : pystr) :
  (forall s' g', k s' g' <> None) ->
  forall (ds : pystr) (n : nat),
    Forall (fun c => is_digit c = true) ds ->
    (length (ds ++ rest) <= n)%nat ->
    star_loop (run false Digit) n (ds ++ rest) g k
    = star_loop (run false Digit) (n - length ds) rest g k.
Proof.
  intros K. induction ds as [|c ds IH]; intros n F L.
  - simpl. now rewrite Nat.sub_0_r.
  - inversion_clear F as [|? ? Hc Hds].
    destruct n as [|n]; [simpl in L; lia|].
    change ((c :: ds) ++ rest) with (c :: (ds ++ rest)).
    rewrite (star_loop_digit k g c (ds ++ rest) n Hc).
    rewrite IH by (try assumption; simpl in L; lia).
    change (S n - length (c :: ds))%nat with (n - length ds)%nat.
    destruct (star_loop (run false Digit) (n - length ds) rest g k) eqn:E;
      [reflexivity|].
    exfalso. revert E. now apply star_loop_some.
Qed.

(** A loop stops where its first test fails. *)
Lemma star_stops (r : regex) (n : nat) (s : pystr) (g : option pystr)
    (k : @cont A) :
  (forall k' : @cont A, run false r s g k' = None) ->
  star_loop (run false r) n s g k = k s g.
Proof.
  intros H. destruct n as [|n]; simpl; [reflexivity|]. now rewrite H.
Qed.

End Loops.

Lemma match_at_budget_unfold (c : codepoint) (s : pystr) :
  match_at false budget_re (c :: s)
  = if is_digit c
    then star_loop (run false Digit) (length s) s None
           (fun s' g' =>
              star_loop (run false comma_group) (length s') s' g'
                (fun s'' g'' =>
                   Some {| group0 := firstn (length (c :: s) - length s'')
                                            (c :: s);
                           group1 := g'';
                           rest := s'' |}))
    else None.
Proof.
  unfold match_at, budget_re, Plus. cbn [run one_char].
  destruct (is_digit c); reflexivity.
Qed.

Lemma match_at_number (ds rest : pystr) :
  digits ds -> ends_number rest ->
  match_at false budget_re (ds ++ rest)
  = Some {| group0 := ds; group1 := None; rest := rest |}.
Proof.
  intros [Hne D] R. destruct ds as [|c ds]; [congruence|].
  inversion_clear D as [|? ? Hc Hds].
  change ((c :: ds) ++ rest) with (c :: (ds ++ rest)).
  rewrite match_at_budget_unfold, Hc.
  rewrite star_digit_run; try assumption; try lia.
  - rewrite star_stops.
    + rewrite star_stops.
      * change (c :: ds ++ rest) with ((c :: ds) ++ rest).
        now rewrite firstn_consumed.
      * intros k'. destruct rest as [|x rest]; [reflexivity|].
        destruct R as [_ R]. unfold comma_group. cbn [run one_char].
        unfold lit_eq. apply N.eqb_neq in R. now rewrite R.
    + intros k'. destruct rest as [|x rest]; [reflexivity|].
      destruct R as [R _]. cbn [run one_char]. now rewrite R.
  - intros s' g'. apply star_loop_some. discriminate.
Qed.

(** [findall] with the budget pattern, from left to right. *)
Lemma findall_skip (c : codepoint) (s : pystr) :
  is_digit c = false ->
  findall false budget_re (c :: s) = findall false budget_re s.
Proof.
  intros H. unfold findall at 1. cbn [findall_from length].
  rewrite match_at_budget_unfold, H. reflexivity.
Qed.

Lemma findall_number (ds rest : pystr) :
  digits ds -> ends_number rest ->
  findall false budget_re (ds ++ rest)
  = ds :: findall false budget_re rest.
Proof.
  intros D R. unfold findall at 1. cbn [findall_from].
  rewrite match_at_number by assumption. cbn [group0 Re.rest].
  assert (L : (length rest < length (ds ++ rest))%nat).
  { destruct D as [Hne _]. rewrite length_app.
    destruct ds; [congruence | simpl; lia]. }
  replace (length rest <? length (ds ++ rest))%nat with true
    by (symmetry; now apply Nat.ltb_lt).
  f_equal. apply findall_from_enough; lia.
Qed.

Lemma ends_number_rupee (s : pystr) : ends_number (RUPEE :: s).
Proof. split; [apply is_digit_rupee | discriminate]. Qed.

Lemma ends_number_en_dash (s : pystr) : ends_number (EN_DASH :: s).
Proof. split; [apply is_digit_en_dash | discriminate]. Qed.

(** [int] on a number without comma. *)
Lemma py_int_strip (z : Z) :
  0 <= z -> py_int (replace 44%N [] (py_str z)) = Some z.
Proof.
  intros H. rewrite replace_comma_digits by now apply py_str_digits.
  now apply py_int_py_str.
Qed.

(** X10.  Parsing the range that [_parse_budget] wrote gives this range and
    the category again. *)
Theorem parse_budget_round_trip (budget_str : option pystr)
    (range_str category : pystr) :
  _parse_budget budget_str = Some (range_str, category) ->
  _parse_budget (Some range_str) = Some (range_str, category).
Proof.
  intros E.
  assert (Unk : _parse_budget (Some Unknown) = Some (Unknown, Unknown))
    by reflexivity.
  destruct budget_str as [s|]; [|injection E as <- <-; exact Unk].
  destruct (findall false budget_re s) as [|num numbers] eqn:F.
  - assert (E' : _parse_budget (Some s) = Some (Unknown, Unknown)).
    { destruct s as [|c s]; [reflexivity|].
      now rewrite parse_budget_unfold, F. }
    rewrite E' in E. injection E as <- <-. exact Unk.
  - destruct (parse_budget_numbers s)
      as (amounts & lo & hi & _ & Pos & [Ilo Flo] & [Ihi Fhi] & E');
      [congruence|].
    rewrite E' in E. injection E as <- <-.
    rewrite Forall_forall in Pos, Flo.
    assert (Hlo : 0 <= lo) by now apply Pos.
    assert (Hhi : 0 <= hi) by now apply Pos.
    assert (Hle : lo <= hi) by now apply Flo.
    destruct (lo =? hi) eqn:Q; cbn [negb].
    + apply Z.eqb_eq in Q. subst hi.
      change ([RUPEE] ++ py_str lo) with (RUPEE :: py_str lo).
      rewrite parse_budget_unfold, findall_skip by apply is_digit_rupee.
      rewrite <- (app_nil_r (py_str lo)) at 1.
      rewrite findall_number by (try apply py_str_digits; simpl; auto).
      change (findall false budget_re []) with (@nil pystr).
      cbn [map_opt]. rewrite py_int_strip by assumption.
      cbn [bind py_min py_max fold_left]. rewrite Z.eqb_refl. reflexivity.
    + apply Z.eqb_neq in Q.
      change ([RUPEE] ++ py_str lo ++ [EN_DASH] ++ [RUPEE] ++ py_str hi)
        with (RUPEE :: (py_str lo ++ EN_DASH :: RUPEE :: py_str hi)).
      rewrite parse_budget_unfold, findall_skip by apply is_digit_rupee.
      rewrite findall_number
        by (try apply py_str_digits; try apply ends_number_en_dash; auto).
      rewrite !findall_skip
        by (apply is_digit_en_dash || apply is_digit_rupee).
      rewrite <- (app_nil_r (py_str hi)) at 1.
      rewrite findall_number by (try apply py_str_digits; simpl; auto).
      change (findall false budget_re []) with (@nil pystr).
      cbn [map_opt]. rewrite !py_int_strip by assumption.
      cbn [bind py_min py_max fold_left].
      rewrite Z.min_l, Z.max_r by lia.
      replace (lo =? hi) with false by (symmetry; apply Z.eqb_neq; lia).
      reflexivity.
Qed.

End RoundTrip.

(** *** What a High label needs *)


Section HighLabel.
Context {U : Unicode}.


End HighLabel.

(* ================================================================= *)
(** ** The further statements with a hypothesis, on concrete inputs *)

(** X10 on ["2,500 to 4000"]: the range written is ["₹2500–₹4000"], which
    parses as itself, Medium again. *)
Lemma parse_budget_round_trip_witness :
  @_parse_budget ascii_only (Some (py "2,500 to 4000"))
  = Some ([RUPEE] ++ py "2500" ++ [EN_DASH; RUPEE] ++ py "4000", Medium) /\
  @_parse_budget ascii_only
    (Some ([RUPEE] ++ py "2500" ++ [EN_DASH; RUPEE] ++ py "4000"))
  = Some ([RUPEE] ++ py "2500" ++ [EN_DASH; RUPEE] ++ py "4000", Medium).
Proof.
  split; [reflexivity|].
  apply (@parse_budget_round_trip ascii_only (Some (py "2,500 to 4000"))).
  reflexivity.
Defined.

(** X14 on ["next month"]. *)
Lemma no_digit_is_long_term_witness :
  Forall (fun c => @is_digit ascii_only c = false) (py "next month") /\
  @_determine_urgency ascii_only (Some (py "next month")) = Some Long_Term.
Proof.
  assert (F : Forall (fun c => @is_digit ascii_only c = false)
                (py "next month"))
    by (repeat constructor).
  split; [exact F|].
  apply (@no_digit_is_long_term ascii_only). exact F.
Defined.
